(** * A shallow embedding of django_fsm.db.fields.fsmfield

    The module [fsmfield.py] attaches transition metadata ([FSMMeta]) to
    model methods through the [transition] decorator, wraps each method in
    [_change_state], and offers [can_proceed] and [accessible_states] for
    introspection.

    Modelling choices:
    - a Django model instance is its attribute dictionary (a [gmap string
      string]); the declared fields [_meta.fields] are class metadata and
      are a section variable;
    - Python exceptions are the inductive [exc]; a computation is a state
      and error monad [M] over a [world] whose state is kept when an
      exception is raised (Python mutations are not rolled back);
    - the world also records a log of the calls made to guards and method
      bodies, so that "called" and "not called" are observable;
    - guards are callables that read the instance (the spec requires them to
      be pure with respect to entity state); method bodies may do anything
      to the world. *)

From stdpp Require Import base gmap strings list.

Local Open Scope string_scope.

(** ** Python values and exceptions *)

Inductive exc :=
| TypeError (msg : string)
| NotImplementedError (msg : string)
| ValueError (msg : string)
| KeyError (key : string)
| AttributeError (name : string)
| UserException (msg : string).

Definition is_TypeError (e : exc) : bool :=
  match e with TypeError _ => true | _ => false end.

Inductive pyval :=
| PNone
| PBool (b : bool)
| PInt (z : Z)
| PStr (s : string).

(** Python truthiness. *)
Definition truthy (v : pyval) : bool :=
  match v with
  | PNone => false
  | PBool b => b
  | PInt z => negb (Z.eqb z 0)
  | PStr s => negb (bool_decide (s = ""))
  end.

Definition str_truthy (s : string) : bool := negb (bool_decide (s = "")).

(** [*args, **kwargs] *)
Record args := { a_pos : list pyval; a_kw : list (string * pyval) }.

Definition no_args : args := {| a_pos := []; a_kw := [] |}.

(** ** Model instances *)

Inductive field_kind := FSMField | FSMKeyField | OtherField.

Record field := { f_name : string; f_kind : field_kind }.

Inductive event := Called (who : string).

Record world := { w_attrs : gmap string string; w_log : list event }.

(** ** The state and error monad *)

Definition M (A : Type) : Type := world -> world * (exc + A).

Definition ret {A} (a : A) : M A := fun w => (w, inr a).

Definition raise {A} (e : exc) : M A := fun w => (w, inl e).

Definition bind {A B} (c : M A) (k : A -> M B) : M B :=
  fun w => match c w with
           | (w', inl e) => (w', inl e)
           | (w', inr a) => k a w'
           end.

Notation "'let*' x ':=' c 'in' k" := (bind c (fun x => k))
  (at level 200, x name, c at level 100, k at level 200).

Definition lift {A} (r : exc + A) : M A := fun w => (w, r).

(** [try: c except TypeError: h] *)
Definition try_TypeError {A} (c : M A) (h : M A) : M A :=
  fun w => match c w with
           | (w', inl (TypeError _)) => h w'
           | r => r
           end.

Fixpoint mapM {A B} (f : A -> M B) (l : list A) : M (list B) :=
  match l with
  | [] => ret []
  | x :: xs => let* y := f x in let* ys := mapM f xs in ret (y :: ys)
  end.

Definition log_call (who : string) : M unit :=
  fun w => ({| w_attrs := w_attrs w; w_log := (w_log w ++ [Called who])%list |}, inr tt).

(** [getattr(instance, name)] and [setattr(instance, name, v)] *)
Definition getattr (name : string) : M string :=
  fun w => match w_attrs w !! name with
           | Some v => (w, inr v)
           | None => (w, inl (AttributeError name))
           end.

Definition setattr (name : string) (v : string) : M unit :=
  fun w => ({| w_attrs := <[name := v]> (w_attrs w); w_log := w_log w |}, inr tt).

(** [d.has_key(k)] and [d[k]] on a dictionary *)
Definition has_key {A} (d : gmap string A) (k : string) : bool :=
  bool_decide (is_Some (d !! k)).

Definition getitem {A} (d : gmap string A) (k : string) : M A :=
  match d !! k with
  | Some v => ret v
  | None => raise (KeyError k)
  end.

(** ** Guards, metadata and decorated methods *)

(** A guard [f(instance, *args, **kwargs)]: it reads the instance and
    either returns a value or raises. *)
Record guard := {
  g_name : string;
  g_fun : gmap string string -> args -> exc + pyval
}.

Definition call_guard (g : guard) (a : args) : M pyval :=
  let* _ := log_call (g_name g) in
  fun w => (w, g_fun g (w_attrs w) a).

(** [class FSMMeta]: [transitions] maps a source to a target, [conditions]
    maps a target to its guard list. *)
Record FSMMeta := {
  transitions : gmap string string;
  conditions : gmap string (list guard)
}.

(** The function object returned by the decorator: the original function
    [func] (with its [func_name]), its [_django_fsm] metadata, and the
    [conditions] and [save] captured by the [_change_state] closure. *)
Record method := {
  func_name : string;
  func : args -> M pyval;
  meta : FSMMeta;
  closure_conditions : list guard;
  closure_save : bool
}.

Definition call_func (m : method) (a : args) : M pyval :=
  let* _ := log_call (func_name m) in func m a.

(** [_state_actions]: source state to (attribute name, method, target). *)
Abbreviation state_actions := (gmap string (list (string * method * string))).

(** ** The state accessor and [FSMMeta]'s methods *)

Section Fsm.

(** [instance._meta.fields] *)
Variable fields : list field.

Definition is_state_field (f : field) : bool :=
  match f_kind f with
  | FSMField | FSMKeyField => true
  | OtherField => false
  end.

(** [FSMMeta._get_state_field] *)
Definition get_state_field : exc + field :=
  match filter is_state_field fields with
  | [] => inl (TypeError "No FSMField found in model")
  | [f] => inr f
  | _ :: _ :: _ => inl (TypeError "More than one FSMField found in model")
  end.

(** [FSMMeta.current_state] *)
Definition current_state : M string :=
  let* f := lift get_state_field in getattr (f_name f).

(** [FSMMeta.has_transition] *)
Definition has_transition (m : FSMMeta) : M bool :=
  let* cur := current_state in
  ret (has_key (transitions m) cur || has_key (transitions m) "*").

(** [FSMMeta.conditions_met]; Python 2's [map] is eager, so every guard is
    called before [all] looks at the results. *)
Definition conditions_met (m : FSMMeta) (a : args) : M bool :=
  let* cur := current_state in
  let* next :=
    (if has_key (transitions m) cur
     then let* v := getitem (transitions m) cur in
          if str_truthy v then ret v else getitem (transitions m) "*"
     else getitem (transitions m) "*") in
  try_TypeError
    (let* conds := getitem (conditions m) next in
     let* vs := mapM (fun g => call_guard g a) conds in
     ret (forallb truthy vs))
    (ret false).

(** [FSMMeta.to_next_state]; [transitions[cur]] only raises [KeyError],
    which the [except KeyError] turns into the lookup of ['*']. *)
Definition to_next_state (m : FSMMeta) : M unit :=
  let* f := lift get_state_field in
  let* curr_state := getattr (f_name f) in
  let* next_state :=
    (match transitions m !! curr_state with
     | Some t => ret t
     | None => getitem (transitions m) "*"
     end) in
  setattr (f_name f) next_state.

(** [instance.save()], the persistence hook owned by the model. *)
Variable instance_save : M unit.

(** The guard loop of [_change_state]: [for condition in conditions: if not
    condition(instance, *args, **kwargs): return False]. *)
Fixpoint check_conditions (conds : list guard) (a : args) : M bool :=
  match conds with
  | [] => ret true
  | g :: gs =>
      let* v := call_guard g a in
      if truthy v then check_conditions gs a else ret false
  end.

Definition illegal_message (cur name : string) : string :=
  "Can't switch from state '" ++ cur ++ "' using method '" ++ name ++ "'".

(** The part of [_change_state] before the body: the legality check, then
    the guards; [true] means the body is about to be called. *)
Definition dispatch_check (m : method) (a : args) : M bool :=
  let* ok := has_transition (meta m) in
  if ok then check_conditions (closure_conditions m) a
  else let* cur := current_state in
       raise (NotImplementedError (illegal_message cur (func_name m))).

(** [_change_state(instance, *args, **kwargs)] *)
Definition change_state (m : method) (a : args) : M pyval :=
  let* go := dispatch_check m a in
  if go then
    let* _ := call_func m a in
    let* _ := to_next_state (meta m) in
    let* _ := (if closure_save m then instance_save else ret tt) in
    ret PNone
  else ret (PBool false).

(** An attribute of the model class, as [dir(instance)] lists it. *)
Inductive member :=
| MData
| MPlain (name : string) (body : args -> M pyval)
| MTransition (m : method).

(** [can_proceed(bound_method, *args, **kwargs)]; an attribute that is not
    a method has no [im_func]. *)
Definition can_proceed (bm : member) (a : args) : M bool :=
  match bm with
  | MTransition m =>
      let* h := has_transition (meta m) in
      if h then conditions_met (meta m) a else ret false
  | MPlain name _ => raise (NotImplementedError (name ++ " method is not transition"))
  | MData => raise (AttributeError "im_func")
  end.

(** ** [accessible_states] *)

(** The attributes of the model class in [dir] order. *)
Variable cls : list (string * member).

Definition append_action (src : string) (x : string * method * string)
    (idx : state_actions) : state_actions :=
  <[src := (default [] (idx !! src) ++ [x])%list]> idx.

Definition index_member (idx : state_actions) (nm : string * member) : state_actions :=
  match nm.2 with
  | MTransition m =>
      foldl (fun idx st => append_action st.1 (nm.1, m, st.2) idx) idx
            (map_to_list (transitions (meta m)))
  | _ => idx
  end.

(** The index built on the first call and stored on the class. *)
Definition build_state_actions : state_actions := foldl index_member ∅ cls.

Fixpoint filter_actions (cands : list (string * method * string)) (a : args)
    : M (list (string * string)) :=
  match cands with
  | [] => ret []
  | (name, m, target) :: cs =>
      let* ok := conditions_met (meta m) a in
      let* rest := filter_actions cs a in
      ret (if ok then (name, target) :: rest else rest)
  end.

(** [accessible_states(instance, *args, **kwargs)]: the class cache is
    threaded explicitly; [state_actions[cur]] on a [defaultdict] stores the
    missing key with an empty list. *)
Definition accessible_states (cache : option state_actions) (a : args) (w : world)
    : option state_actions * (world * (exc + list (string * string))) :=
  let idx := match cache with Some idx => idx | None => build_state_actions end in
  match current_state w with
  | (w1, inl e) => (Some idx, (w1, inl e))
  | (w1, inr cur) =>
      let cands := default [] (idx !! cur) in
      (Some (<[cur := cands]> idx), filter_actions cands a w1)
  end.

End Fsm.

(** ** The [transition] decorator *)

(** [source] is a single state or a list (or tuple) of states. *)
Inductive source_arg :=
| Source (s : string)
| Sources (l : list string).

Definition register_sources (source : source_arg) (target : string)
    (t : gmap string string) : gmap string string :=
  match source with
  | Source s => <[s := target]> t
  | Sources l => foldl (fun t state => <[state := target]> t) t l
  end.

(** [inner_transition(func)] applied to a function [name] with body [body]
    that has no [_django_fsm] attribute yet. *)
Definition inner_transition (source : source_arg) (target : string) (save : bool)
    (conds : list guard) (name : string) (body : args -> M pyval) : method :=
  let m0 := {| transitions := ∅; conditions := ∅ |} in
  let m1 := {| transitions := register_sources source target (transitions m0);
               conditions := <[target := conds]> (conditions m0) |} in
  {| func_name := name; func := body; meta := m1;
     closure_conditions := conds; closure_save := save |}.

(** [transition(source, target, save, conditions)]; a missing target is
    the empty string (both are falsy). *)
Definition transition (source : source_arg) (target : string) (save : bool)
    (conds : list guard) : exc + (string -> (args -> M pyval) -> method) :=
  if str_truthy target then inr (inner_transition source target save conds)
  else inl (ValueError "Result state not specified").

(** The states a [source] argument names. *)
Definition source_list (source : source_arg) : list string :=
  match source with
  | Source s => [s]
  | Sources l => l
  end.

(** The [_django_fsm] of the function [inner_transition] receives: the
    existing [FSMMeta] when it has one (a function decorated before, whose
    metadata [@wraps] copied onto its wrapper), else a fresh one. *)
Definition fsm_of (existing : option FSMMeta) : FSMMeta :=
  match existing with
  | Some m => m
  | None => {| transitions := ∅; conditions := ∅ |}
  end.

(** The registry [inner_transition] leaves on that [FSMMeta] (lines
    90-99): the sources are registered to [target], then [conditions] is
    stored under [target]; the object is updated in place. *)
Definition register_transition (source : source_arg) (target : string) (conds : list guard)
    (existing : option FSMMeta) : FSMMeta :=
  let m0 := fsm_of existing in
  {| transitions := register_sources source target (transitions m0);
     conditions := <[target := conds]> (conditions m0) |}.

(** ** The [BlogPost] model of the test suite *)

Module BlogPost.

Definition fields : list field :=
  [ {| f_name := "id"; f_kind := OtherField |};
    {| f_name := "state"; f_kind := FSMField |} ].

Definition pass (_ : args) : M pyval := ret PNone.

Definition no_save : M unit := ret tt.

Definition publish := inner_transition (Source "new") "published" false [] "publish" pass.
Definition hide := inner_transition (Source "published") "hidden" false [] "hide" pass.
Definition remove := inner_transition (Source "new") "removed" false [] "remove"
  (fun _ => raise (UserException "No rights to delete")).
Definition steal := inner_transition (Sources ["published"; "hidden"]) "stolen" false [] "steal" pass.
Definition moderate := inner_transition (Source "*") "moderated" false [] "moderate" pass.

Definition cls : list (string * member) :=
  [ ("hide", MTransition hide); ("moderate", MTransition moderate);
    ("publish", MTransition publish); ("remove", MTransition remove);
    ("steal", MTransition steal) ].

Definition in_state (s : string) : world := {| w_attrs := {["state" := s]}; w_log := [] |}.

Definition state_of (w : world) : option string := w_attrs w !! "state".

Definition run (m : method) (w : world) : world * (exc + pyval) :=
  change_state fields no_save m no_args w.

(** A body that assigns the state attribute before raising. *)
Definition remove_midway := inner_transition (Source "new") "removed" false [] "remove"
  (fun _ => let* _ := setattr "state" "removing" in raise (UserException "No rights to delete")).

(** A body with a return value. *)
Definition publish_returning := inner_transition (Source "new") "published" false [] "publish"
  (fun _ => ret (PStr "done")).

(** A guard that raises [ValueError]. *)
Definition failing_guard : guard :=
  {| g_name := "check_owner"; g_fun := fun _ _ => inl (ValueError "no owner") |}.

Definition guarded_publish := inner_transition (Source "new") "published" false
  [failing_guard] "publish" pass.

(** A body that puts the post back to ["new"], a state [steal] has no
    entry for. *)
Definition steal_resetting := inner_transition (Sources ["published"; "hidden"]) "stolen" false []
  "steal" (fun _ => let* _ := setattr "state" "new" in ret PNone).

(** A [save] hook that fails, and a method decorated with [save=True]. *)
Definition failing_save : M unit := raise (UserException "database is locked").

Definition hide_saving := inner_transition (Source "published") "hidden" true [] "hide" pass.

End BlogPost.

(** ** The [BlogPostWithConditions] model of the test suite *)

#[export] Instance pyval_eq_dec : EqDecision pyval.
Proof. solve_decision. Defined.

Module Conditional.

Definition fields : list field :=
  [ {| f_name := "id"; f_kind := OtherField |};
    {| f_name := "state"; f_kind := FSMField |} ].

Definition pass (_ : args) : M pyval := ret PNone.

(** [condition_func(instance, *args, **kwargs)] *)
Definition condition_func : guard :=
  {| g_name := "condition_func"; g_fun := fun _ _ => inr (PBool true) |}.

(** [condition_func2(instance)]: any extra argument is an arity error. *)
Definition condition_func2 : guard :=
  {| g_name := "condition_func2";
     g_fun := fun _ a => match a_pos a, a_kw a with
                         | [], [] => inr (PBool true)
                         | _, _ => inl (TypeError "condition_func2() takes exactly 1 argument")
                         end |}.

Definition model_condition : guard :=
  {| g_name := "model_condition"; g_fun := fun _ _ => inr (PBool true) |}.

Definition unmet_condition : guard :=
  {| g_name := "unmet_condition"; g_fun := fun _ _ => inr (PBool false) |}.

(** [variable_condition(self, user, moderator='bar')] *)
Definition variable_condition_result (user moderator : pyval) : exc + pyval :=
  inr (PBool (bool_decide (user = moderator))).

Definition variable_condition : guard :=
  {| g_name := "variable_condition";
     g_fun := fun _ a => match a_pos a, a_kw a with
                         | [u], [] => variable_condition_result u (PStr "bar")
                         | [u], [("moderator", m)] => variable_condition_result u m
                         | [u; m], [] => variable_condition_result u m
                         | [], [("user", u)] => variable_condition_result u (PStr "bar")
                         | [], [("user", u); ("moderator", m)] => variable_condition_result u m
                         | [], [("moderator", m); ("user", u)] => variable_condition_result u m
                         | _, _ => inl (TypeError "variable_condition() takes at least 2 arguments")
                         end |}.

Definition publish := inner_transition (Source "new") "published" false
  [condition_func; model_condition] "publish" pass.
Definition destroy := inner_transition (Source "published") "destroyed" false
  [condition_func; unmet_condition] "destroy" pass.
Definition approve := inner_transition (Source "published") "approved" false
  [condition_func; variable_condition] "approve" pass.
Definition bless := inner_transition (Source "published") "holy" false
  [variable_condition] "bless" pass.
Definition mark_spam := inner_transition (Sources ["published"; "new"]) "spam" false
  [condition_func2] "mark_spam" pass.

Definition cls : list (string * member) :=
  [ ("approve", MTransition approve); ("bless", MTransition bless);
    ("destroy", MTransition destroy); ("mark_spam", MTransition mark_spam);
    ("model_condition", MPlain "model_condition" pass);
    ("publish", MTransition publish);
    ("unmet_condition", MPlain "unmet_condition" pass);
    ("variable_condition", MPlain "variable_condition" pass) ].

Definition in_state (s : string) : world := {| w_attrs := {["state" := s]}; w_log := [] |}.

Definition bar_args : args := {| a_pos := [PStr "bar"]; a_kw := [] |}.

Definition accessible_with_bar :=
  accessible_states fields cls None bar_args (in_state "published").

End Conditional.


(** A registry with both an exact and a wildcard entry of different
    targets. *)
Definition exact_and_wildcard : FSMMeta :=
  {| transitions := <["hidden" := "archived"]> (<["*" := "moderated"]> ∅);
     conditions := <["archived" := [Conditional.condition_func]]>
                     {["moderated" := [Conditional.unmet_condition]]} |}.

(** ** Reasoning about the monad *)

Definition log_guards (gs : list guard) (w : world) : world :=
  {| w_attrs := w_attrs w;
     w_log := (w_log w ++ map (fun g => Called (g_name g)) gs)%list |}.

(** A guard that returns a truthy value on these arguments. *)
Definition guard_passes (attrs : gmap string string) (a : args) (g : guard) : Prop :=
  exists v, g_fun g attrs a = inr v /\ truthy v = true.

(** The target [to_next_state] picks: the exact entry, else the wildcard. *)
Definition next_target (t : gmap string string) (cur : string) : option string :=
  match t !! cur with
  | Some x => Some x
  | None => t !! "*"
  end.

(** The truthiness of a guard's result, [False] when it raises. *)
Definition guard_ok (attrs : gmap string string) (a : args) (g : guard) : bool :=
  match g_fun g attrs a with
  | inr v => truthy v
  | inl _ => false
  end.

(** A computation that leaves the attributes alone and whose result depends
    only on them (it may append to the call log). *)
Definition reads_only {A} (c : M A) : Prop :=
  forall w, w_attrs (fst (c w)) = w_attrs w /\
    forall w2, w_attrs w2 = w_attrs w -> snd (c w2) = snd (c w).

(** The shape of the metadata the decorator leaves on a fresh function:
    every source maps to one non-empty target, whose guards are the
    decorator's [conditions]. *)
Definition decorated (m : method) : Prop :=
  exists target, str_truthy target = true /\
    conditions (meta m) = {[target := closure_conditions m]} /\
    forall s t, transitions (meta m) !! s = Some t -> t = target.

(** A class cache that answers every [defaultdict] lookup as the index
    built from the class does. *)
Definition cache_ok (cls : list (string * member)) (cache : option state_actions) : Prop :=
  forall idx, cache = Some idx ->
    forall k, default [] (idx !! k) = default [] (build_state_actions cls !! k).

Lemma bind_inr {A B} (c : M A) (k : A -> M B) w w' x :
  c w = (w', inr x) -> bind c k w = k x w'.
Proof. intros H. unfold bind. now rewrite H. Qed.

Lemma bind_inl {A B} (c : M A) (k : A -> M B) w w' e :
  c w = (w', inl e) -> bind c k w = (w', inl e).
Proof. intros H. unfold bind. now rewrite H. Qed.

Lemma log_guards_nil w : log_guards [] w = w.
Proof. destruct w. unfold log_guards. simpl. now rewrite app_nil_r. Qed.

Lemma log_guards_app gs1 gs2 w :
  log_guards gs2 (log_guards gs1 w) = log_guards (gs1 ++ gs2) w.
Proof. unfold log_guards. simpl. now rewrite map_app, app_assoc. Qed.

Lemma log_guards_attrs gs w : w_attrs (log_guards gs w) = w_attrs w.
Proof. reflexivity. Qed.

Lemma call_guard_eq g a w :
  call_guard g a w = (log_guards [g] w, g_fun g (w_attrs w) a).
Proof. reflexivity. Qed.

Lemma current_state_spec fields w cur :
  current_state fields w = (w, inr cur) <->
  exists f, get_state_field fields = inr f /\ w_attrs w !! f_name f = Some cur.
Proof.
  unfold current_state, bind, lift, getattr.
  destruct (get_state_field fields) as [e|f]; simpl.
  - split; [discriminate | intros (f & H & _); discriminate].
  - destruct (w_attrs w !! f_name f) eqn:E; split.
    + intros H. inversion H; subst. eauto.
    + intros (f' & H1 & H2). inversion H1; subst. congruence.
    + discriminate.
    + intros (f' & H1 & H2). inversion H1; subst. congruence.
Qed.

Lemma has_transition_eq fields m w cur :
  current_state fields w = (w, inr cur) ->
  has_transition fields m w =
    (w, inr (has_key (transitions m) cur || has_key (transitions m) "*")).
Proof. intros H. unfold has_transition. now rewrite (bind_inr _ _ _ _ _ H). Qed.

Lemma check_conditions_passing pre rest a w :
  Forall (guard_passes (w_attrs w) a) pre ->
  check_conditions (pre ++ rest) a w = check_conditions rest a (log_guards pre w).
Proof.
  revert w. induction pre as [|g pre IH]; intros w Hp; simpl.
  - now rewrite log_guards_nil.
  - inversion Hp as [|? ? (v & Hv & Ht) Hps]; subst.
    rewrite (bind_inr _ _ w (log_guards [g] w) v) by (rewrite call_guard_eq; now rewrite Hv).
    rewrite Ht. rewrite IH by exact Hps.
    now rewrite log_guards_app.
Qed.

Lemma legal_of_next_target (t : gmap string string) cur x :
  next_target t cur = Some x -> (has_key t cur || has_key t "*") = true.
Proof.
  unfold next_target, has_key. destruct (t !! cur) eqn:E.
  - intros _. rewrite bool_decide_eq_true_2; [reflexivity | by eexists].
  - intros H. rewrite orb_comm, bool_decide_eq_true_2; [reflexivity | rewrite H; by eexists].
Qed.

Lemma check_conditions_all gs a w :
  Forall (guard_passes (w_attrs w) a) gs ->
  check_conditions gs a w = (log_guards gs w, inr true).
Proof.
  intros H. pose proof (check_conditions_passing gs [] a w H) as E.
  rewrite app_nil_r in E. exact E.
Qed.

Lemma dispatch_check_accepts fields m a w cur :
  current_state fields w = (w, inr cur) ->
  (has_key (transitions (meta m)) cur || has_key (transitions (meta m)) "*") = true ->
  Forall (guard_passes (w_attrs w) a) (closure_conditions m) ->
  dispatch_check fields m a w = (log_guards (closure_conditions m) w, inr true).
Proof.
  intros Hc Hl Hg. unfold dispatch_check.
  rewrite (bind_inr _ _ _ _ _ (has_transition_eq fields (meta m) w cur Hc)), Hl.
  now apply check_conditions_all.
Qed.

Lemma change_state_after_check fields sv m a w w1 :
  dispatch_check fields m a w = (w1, inr true) ->
  change_state fields sv m a w =
    (let* _ := call_func m a in
     let* _ := to_next_state fields (meta m) in
     let* _ := (if closure_save m then sv else ret tt) in
     ret PNone) w1.
Proof. intros H. unfold change_state. now rewrite (bind_inr _ _ _ _ _ H). Qed.

Lemma to_next_state_eq fields mt w f s x :
  get_state_field fields = inr f ->
  w_attrs w !! f_name f = Some s ->
  next_target (transitions mt) s = Some x ->
  to_next_state fields mt w =
    ({| w_attrs := <[f_name f := x]> (w_attrs w); w_log := w_log w |}, inr tt).
Proof.
  intros Hf Hs Hx. unfold to_next_state, bind, lift, getattr. rewrite Hf, Hs.
  unfold next_target in Hx. unfold getitem.
  destruct (transitions mt !! s); [now inversion Hx|]. now rewrite Hx.
Qed.

Lemma to_next_state_missing fields mt w f s :
  get_state_field fields = inr f ->
  w_attrs w !! f_name f = Some s ->
  next_target (transitions mt) s = None ->
  to_next_state fields mt w = (w, inl (KeyError "*")).
Proof.
  intros Hf Hs Hx. unfold to_next_state, bind, lift, getattr. rewrite Hf, Hs.
  unfold next_target in Hx. unfold getitem.
  destruct (transitions mt !! s); [discriminate|]. now rewrite Hx.
Qed.

(** ** Claims about the dispatch protocol [_change_state] *)

(** C2: when the current state has neither an exact nor a wildcard entry in
    the method's registry, the call raises [NotImplementedError] with the
    message naming the current state and the method, the world is left as
    it was (no guard or body is called, the state is not written), and any
    number of such calls leaves the world unchanged. *)
Theorem illegal_transition_rejected fields sv m a w cur :
  current_state fields w = (w, inr cur) ->
  transitions (meta m) !! cur = None ->
  transitions (meta m) !! "*" = None ->
  change_state fields sv m a w =
    (w, inl (NotImplementedError (illegal_message cur (func_name m)))) /\
  forall n, Nat.iter n (fun w0 => fst (change_state fields sv m a w0)) w = w.
Proof.
  intros Hc Hcur Hstar.
  assert (E : change_state fields sv m a w =
    (w, inl (NotImplementedError (illegal_message cur (func_name m))))).
  { assert (D : dispatch_check fields m a w =
      (w, inl (NotImplementedError (illegal_message cur (func_name m))))).
    { unfold dispatch_check.
      rewrite (bind_inr _ _ _ _ _ (has_transition_eq fields (meta m) w cur Hc)).
      unfold has_key. rewrite Hcur, Hstar. simpl.
      now rewrite (bind_inr _ _ _ _ _ Hc). }
    unfold change_state. now rewrite (bind_inl _ _ _ _ _ D). }
  split; [exact E|].
  induction n as [|n IH]; simpl; [reflexivity|]. now rewrite IH, E.
Qed.

(** C6: with a legal current state, when the guards before [g] pass and [g]
    returns a falsy value, the call returns [False]; exactly the guards up to
    [g] were called, in declared order, the body was not called and the
    state attribute is unchanged. *)
Theorem first_falsy_guard_aborts fields sv m a w cur (pre : list guard) g post v :
  current_state fields w = (w, inr cur) ->
  (has_key (transitions (meta m)) cur || has_key (transitions (meta m)) "*") = true ->
  closure_conditions m = (pre ++ g :: post)%list ->
  Forall (guard_passes (w_attrs w) a) pre ->
  g_fun g (w_attrs w) a = inr v ->
  truthy v = false ->
  change_state fields sv m a w = (log_guards (pre ++ [g])%list w, inr (PBool false)).
Proof.
  intros Hc Hl Hconds Hpre Hg Hv.
  assert (D : dispatch_check fields m a w = (log_guards (pre ++ [g])%list w, inr false)).
  { unfold dispatch_check.
    rewrite (bind_inr _ _ _ _ _ (has_transition_eq fields (meta m) w cur Hc)), Hl, Hconds.
    rewrite check_conditions_passing by exact Hpre. simpl.
    rewrite (bind_inr _ _ _ (log_guards [g] (log_guards pre w)) v)
      by (rewrite call_guard_eq, log_guards_attrs; now rewrite Hg).
    rewrite Hv, log_guards_app. reflexivity. }
  unfold change_state. now rewrite (bind_inr _ _ _ _ _ D).
Qed.

(** C4 (as amended): with a legal current state, when the guards before [g]
    pass and [g] raises an exception other than [TypeError], the call
    propagates that exception; the body was not called and the state
    attribute is unchanged. *)
Theorem raising_guard_propagates fields sv m a w cur (pre : list guard) g post e :
  current_state fields w = (w, inr cur) ->
  (has_key (transitions (meta m)) cur || has_key (transitions (meta m)) "*") = true ->
  closure_conditions m = (pre ++ g :: post)%list ->
  Forall (guard_passes (w_attrs w) a) pre ->
  g_fun g (w_attrs w) a = inl e ->
  is_TypeError e = false ->
  change_state fields sv m a w = (log_guards (pre ++ [g])%list w, inl e).
Proof.
  intros Hc Hl Hconds Hpre Hg _.
  assert (D : dispatch_check fields m a w = (log_guards (pre ++ [g])%list w, inl e)).
  { unfold dispatch_check.
    rewrite (bind_inr _ _ _ _ _ (has_transition_eq fields (meta m) w cur Hc)), Hl, Hconds.
    rewrite check_conditions_passing by exact Hpre. simpl.
    rewrite (bind_inl _ _ _ (log_guards [g] (log_guards pre w)) e)
      by (rewrite call_guard_eq, log_guards_attrs; now rewrite Hg).
    now rewrite log_guards_app. }
  unfold change_state. now rewrite (bind_inl _ _ _ _ _ D).
Qed.

(** C1 (as amended): with a legal current state and passing guards, when
    the body raises, the call raises the same exception and returns the world
    exactly as the body left it: the dispatch writes no state after the body.
    Hence the state attribute is the one before the call whenever the body
    did not itself assign it. *)
Theorem body_exception_propagates fields sv m a w cur w' e :
  current_state fields w = (w, inr cur) ->
  (has_key (transitions (meta m)) cur || has_key (transitions (meta m)) "*") = true ->
  Forall (guard_passes (w_attrs w) a) (closure_conditions m) ->
  call_func m a (log_guards (closure_conditions m) w) = (w', inl e) ->
  change_state fields sv m a w = (w', inl e) /\
  ((forall f, get_state_field fields = inr f ->
      w_attrs w' !! f_name f = w_attrs w !! f_name f) ->
   current_state fields w' = (w', inr cur)).
Proof.
  intros Hc Hl Hg Hb. split.
  - rewrite (change_state_after_check fields sv m a w _
      (dispatch_check_accepts fields m a w cur Hc Hl Hg)).
    now rewrite (bind_inl _ _ _ _ _ Hb).
  - intros Hkeep. apply current_state_spec in Hc as (f & Hf & Hs).
    apply current_state_spec. exists f. split; [exact Hf|]. now rewrite Hkeep.
Qed.

Lemma accepted_call fields sv m a w cur f w' v s' t :
  get_state_field fields = inr f ->
  w_attrs w !! f_name f = Some cur ->
  (has_key (transitions (meta m)) cur || has_key (transitions (meta m)) "*") = true ->
  Forall (guard_passes (w_attrs w) a) (closure_conditions m) ->
  call_func m a (log_guards (closure_conditions m) w) = (w', inr v) ->
  w_attrs w' !! f_name f = Some s' ->
  next_target (transitions (meta m)) s' = Some t ->
  change_state fields sv m a w =
    (if closure_save m then bind sv (fun _ => ret PNone) else ret PNone)
      {| w_attrs := <[f_name f := t]> (w_attrs w'); w_log := w_log w' |}.
Proof.
  intros Hf Hcur Hl Hg Hb Hs' Ht.
  assert (Hc : current_state fields w = (w, inr cur))
    by (apply current_state_spec; eauto).
  rewrite (change_state_after_check fields sv m a w _
    (dispatch_check_accepts fields m a w cur Hc Hl Hg)).
  rewrite (bind_inr _ _ _ _ _ Hb).
  rewrite (bind_inr _ _ _ _ _ (to_next_state_eq fields (meta m) w' f s' t Hf Hs' Ht)).
  destruct (closure_save m); reflexivity.
Qed.

Lemma transition_inner src target save conds dec :
  transition src target save conds = inr dec ->
  str_truthy target = true /\ dec = inner_transition src target save conds.
Proof.
  unfold transition. destruct (str_truthy target); intros H; inversion H; auto.
Qed.

Lemma register_sources_lookup (l : list string) target (t : gmap string string) s :
  register_sources (Sources l) target t !! s =
    if bool_decide (s ∈ l) then Some target else t !! s.
Proof.
  revert t. induction l as [|x l IH]; intros t; simpl.
  - reflexivity.
  - specialize (IH (<[x := target]> t)). simpl in IH. rewrite IH, lookup_insert.
    case_bool_decide as H1; case_bool_decide as H2; try case_decide;
      subst; try reflexivity; set_solver.
Qed.

(** C5 (as amended): with passing guards and a body that returns normally
    and leaves the state attribute as it was, the call returns [None]
    whatever the body returned: the state attribute is set to the target
    resolved for the current state, then [instance.save()] runs when the
    decorator was given [save=True]. *)
Theorem accepted_call_returns_none fields sv m a w cur f w' v t :
  get_state_field fields = inr f ->
  w_attrs w !! f_name f = Some cur ->
  next_target (transitions (meta m)) cur = Some t ->
  Forall (guard_passes (w_attrs w) a) (closure_conditions m) ->
  call_func m a (log_guards (closure_conditions m) w) = (w', inr v) ->
  w_attrs w' !! f_name f = Some cur ->
  change_state fields sv m a w =
    (if closure_save m then bind sv (fun _ => ret PNone) else ret PNone)
      {| w_attrs := <[f_name f := t]> (w_attrs w'); w_log := w_log w' |}.
Proof.
  intros Hf Hcur Ht Hg Hb Hs.
  eapply accepted_call; eauto. eapply legal_of_next_target; eauto.
Qed.

Lemma mapM_call_guards gs a w :
  Forall (fun g => exists v, g_fun g (w_attrs w) a = inr v) gs ->
  exists vs, mapM (fun g => call_guard g a) gs w = (log_guards gs w, inr vs) /\
    forallb truthy vs = forallb (guard_ok (w_attrs w) a) gs.
Proof.
  revert w. induction gs as [|g gs IH]; intros w Hgs.
  - exists []. simpl. now rewrite log_guards_nil.
  - inversion Hgs as [|? ? (v & Hv) Hrest]; subst. simpl.
    rewrite (bind_inr _ _ w (log_guards [g] w) v)
      by (rewrite call_guard_eq; now rewrite Hv).
    destruct (IH (log_guards [g] w)) as (vs & Hm & Hb); [exact Hrest|].
    rewrite (bind_inr _ _ _ _ _ Hm). exists (v :: vs). simpl.
    rewrite log_guards_app, Hb, log_guards_attrs. unfold guard_ok at 2. now rewrite Hv.
Qed.

Lemma wildcard_next_target (T s : string) :
  next_target (<["*" := T]> ∅) s = Some T.
Proof.
  unfold next_target. rewrite lookup_insert. case_decide.
  - reflexivity.
  - rewrite lookup_empty. now rewrite lookup_insert_eq.
Qed.

Lemma conditions_met_exact fields mt a w cur te gs :
  current_state fields w = (w, inr cur) ->
  transitions mt !! cur = Some te ->
  str_truthy te = true ->
  conditions mt !! te = Some gs ->
  conditions_met fields mt a w =
    try_TypeError
      (let* vs := mapM (fun g => call_guard g a) gs in ret (forallb truthy vs))
      (ret false) w.
Proof.
  intros Hc Hte Htr Hgs.
  unfold conditions_met. rewrite (bind_inr _ _ _ _ _ Hc).
  unfold has_key at 1. rewrite Hte. simpl.
  assert (Gi : getitem (transitions mt) cur w = (w, inr te))
    by (unfold getitem; now rewrite Hte).
  assert (Gn : (let* v := getitem (transitions mt) cur in
                if str_truthy v then ret v else getitem (transitions mt) "*") w
               = (w, inr te))
    by (rewrite (bind_inr _ _ _ _ _ Gi), Htr; reflexivity).
  rewrite (bind_inr _ _ _ _ _ Gn).
  assert (Gc : getitem (conditions mt) te w = (w, inr gs))
    by (unfold getitem; now rewrite Hgs).
  unfold try_TypeError. now rewrite (bind_inr _ _ _ _ _ Gc).
Qed.

(** C7: a method decorated with source ['*'] and target [T] is accepted
    from every current state and, with passing guards and a body that returns
    normally, sets the state attribute to [T]; and for any registry that has
    an exact entry [te] for the current state, [to_next_state] writes [te]
    and [conditions_met] evaluates the guards stored for [te], whatever the
    wildcard entry is. *)
Theorem wildcard_and_exact_precedence :
  (forall fields sv T save conds dec name body a w cur f w' v s',
     transition (Source "*") T save conds = inr dec ->
     get_state_field fields = inr f ->
     w_attrs w !! f_name f = Some cur ->
     Forall (guard_passes (w_attrs w) a) conds ->
     call_func (dec name body) a (log_guards conds w) = (w', inr v) ->
     w_attrs w' !! f_name f = Some s' ->
     change_state fields sv (dec name body) a w =
       (if save then bind sv (fun _ => ret PNone) else ret PNone)
         {| w_attrs := <[f_name f := T]> (w_attrs w'); w_log := w_log w' |}) /\
  (forall fields (mt : FSMMeta) a w cur f te,
     get_state_field fields = inr f ->
     w_attrs w !! f_name f = Some cur ->
     transitions mt !! cur = Some te ->
     to_next_state fields mt w =
       ({| w_attrs := <[f_name f := te]> (w_attrs w); w_log := w_log w |}, inr tt) /\
     (str_truthy te = true -> forall gs, conditions mt !! te = Some gs ->
        Forall (fun g => exists v, g_fun g (w_attrs w) a = inr v) gs ->
        conditions_met fields mt a w =
          (log_guards gs w, inr (forallb (guard_ok (w_attrs w) a) gs)))).
Proof.
  split.
  - intros fields sv T save conds dec name body a w cur f w' v s' Hd Hf Hcur Hg Hb Hs'.
    apply transition_inner in Hd as [_ ->].
    apply (accepted_call fields sv (inner_transition (Source "*") T save conds name body)
      a w cur f w' v s' T); auto.
    + simpl. unfold has_key. rewrite orb_comm, lookup_insert_eq. reflexivity.
    + apply wildcard_next_target.
  - intros fields mt a w cur f te Hf Hcur Hte. split.
    + apply (to_next_state_eq fields mt w f cur te Hf Hcur).
      unfold next_target. now rewrite Hte.
    + intros Htr gs Hgs Hret.
      assert (Hc : current_state fields w = (w, inr cur))
        by (apply current_state_spec; eauto).
      rewrite (conditions_met_exact fields mt a w cur te gs Hc Hte Htr Hgs).
      destruct (mapM_call_guards gs a w Hret) as (vs & Hm & Hb).
      unfold try_TypeError. rewrite (bind_inr _ _ _ _ _ Hm). simpl. now rewrite Hb.
Qed.

(** C8 (as amended): decorating a fresh function with a list of sources
    [l] and target [T] maps exactly the states of [l] to [T]. From any
    state of [l], with passing guards and a body that returns normally,
    the target is resolved from the state the body leaves: when that
    state is in [l] (or ['*'] is in [l]) the call sets the state attribute
    to [T], then saves when [save=True], and returns [None]; otherwise the
    call raises [KeyError '*'] after the body, leaving the instance as the
    body left it. *)
Theorem multi_source_registration fields sv (l : list string) T save conds dec name body :
  transition (Sources l) T save conds = inr dec ->
  (forall s, transitions (meta (dec name body)) !! s =
               if bool_decide (s ∈ l) then Some T else None) /\
  (forall s a w f w' v s',
     s ∈ l ->
     get_state_field fields = inr f ->
     w_attrs w !! f_name f = Some s ->
     Forall (guard_passes (w_attrs w) a) conds ->
     call_func (dec name body) a (log_guards conds w) = (w', inr v) ->
     w_attrs w' !! f_name f = Some s' ->
     change_state fields sv (dec name body) a w =
       if bool_decide (s' ∈ l \/ "*" ∈ l)
       then (if save then bind sv (fun _ => ret PNone) else ret PNone)
              {| w_attrs := <[f_name f := T]> (w_attrs w'); w_log := w_log w' |}
       else (w', inl (KeyError "*"))).
Proof.
  intros Hd. apply transition_inner in Hd as [_ ->].
  set (m := inner_transition (Sources l) T save conds name body).
  assert (Hl : forall s, transitions (meta m) !! s = if bool_decide (s ∈ l) then Some T else None).
  { intros s. etransitivity; [apply (register_sources_lookup l T ∅ s)|].
    now rewrite lookup_empty. }
  split; [exact Hl|].
  intros s a w f w' v s' Hin Hf Hs Hg Hb Hs'.
  assert (Hts : transitions (meta m) !! s = Some T)
    by (rewrite Hl; now rewrite bool_decide_eq_true_2).
  assert (Hleg : (has_key (transitions (meta m)) s || has_key (transitions (meta m)) "*") = true).
  { apply (legal_of_next_target _ _ T). unfold next_target. now rewrite Hts. }
  case_bool_decide as Hout.
  - assert (Ht : next_target (transitions (meta m)) s' = Some T).
    { unfold next_target. rewrite !Hl.
      case_bool_decide; [reflexivity|]. case_bool_decide; [reflexivity|].
      destruct Hout; contradiction. }
    apply (accepted_call fields sv m a w s f w' v s' T); auto.
  - assert (Hx : next_target (transitions (meta m)) s' = None).
    { unfold next_target. rewrite !Hl.
      case_bool_decide; [destruct Hout; now left|].
      case_bool_decide; [destruct Hout; now right|]. reflexivity. }
    assert (Hc : current_state fields w = (w, inr s)) by (apply current_state_spec; eauto).
    rewrite (change_state_after_check fields sv m a w _
      (dispatch_check_accepts fields m a w s Hc Hleg Hg)).
    rewrite (bind_inr _ _ _ _ _ Hb).
    now rewrite (bind_inl _ _ _ _ _ (to_next_state_missing fields (meta m) w' f s' Hf Hs' Hx)).
Qed.

(** ** Claims about the state accessor and [can_proceed] *)


(** C10: [can_proceed] on a method without [_django_fsm] metadata raises
    [NotImplementedError] naming the method, instead of returning [False]. *)
Theorem can_proceed_plain_method fields name body a w :
  can_proceed fields (MPlain name body) a w =
    (w, inl (NotImplementedError (name ++ " method is not transition"))).
Proof. reflexivity. Qed.

(** ** Introspection: [accessible_states] *)

Create HintDb readsonly.

Lemma reads_only_ret {A} (x : A) : reads_only (ret x).
Proof. intros w. split; reflexivity. Qed.

Lemma reads_only_raise {A} e : reads_only (@raise A e).
Proof. intros w. split; reflexivity. Qed.

Lemma reads_only_lift {A} (r : exc + A) : reads_only (lift r).
Proof. intros w. split; reflexivity. Qed.

Lemma reads_only_getattr n : reads_only (getattr n).
Proof.
  intros w. unfold getattr. split.
  - now destruct (w_attrs w !! n).
  - intros w2 ->. now destruct (w_attrs w !! n).
Qed.

Lemma reads_only_getitem {A} (d : gmap string A) k : reads_only (getitem d k).
Proof. unfold getitem. destruct (d !! k); [apply reads_only_ret | apply reads_only_raise]. Qed.

Lemma reads_only_call_guard g a : reads_only (call_guard g a).
Proof. intros w. rewrite call_guard_eq. split; [reflexivity|]. intros w2 H2.
  rewrite call_guard_eq. simpl. now rewrite H2. Qed.

Lemma reads_only_bind {A B} (c : M A) (k : A -> M B) :
  reads_only c -> (forall x, reads_only (k x)) -> reads_only (bind c k).
Proof.
  intros Hc Hk w. unfold bind.
  destruct (c w) as [w1 r] eqn:E. destruct (Hc w) as [Ha Hs]. rewrite E in Ha, Hs. simpl in Ha.
  destruct r as [e|x].
  - split; [exact Ha|]. intros w2 H2. specialize (Hs w2 H2).
    destruct (c w2) as [w2' r2]. simpl in Hs. now subst.
  - destruct (Hk x w1) as [Ha' Hs']. split; [congruence|].
    intros w2 H2. specialize (Hs w2 H2). pose proof (proj1 (Hc w2)) as Ha2.
    destruct (c w2) as [w2' r2]. simpl in Hs, Ha2. subst r2.
    apply Hs'. congruence.
Qed.

Lemma reads_only_if {A} (b : bool) (c1 c2 : M A) :
  reads_only c1 -> reads_only c2 -> reads_only (if b then c1 else c2).
Proof. now destruct b. Qed.

Lemma reads_only_mapM {A B} (f : A -> M B) (l : list A) :
  (forall x, reads_only (f x)) -> reads_only (mapM f l).
Proof.
  intros Hf. induction l as [|x l IH]; simpl.
  - apply reads_only_ret.
  - apply reads_only_bind; [apply Hf|]. intros y.
    apply reads_only_bind; [exact IH|]. intros ys. apply reads_only_ret.
Qed.

Lemma reads_only_try_TypeError {A} (c h : M A) :
  reads_only c -> reads_only h -> reads_only (try_TypeError c h).
Proof.
  intros Hc Hh w. unfold try_TypeError.
  destruct (Hc w) as [Ha Hs].
  destruct (c w) as [w1 r] eqn:E. simpl in Ha.
  assert (Hw2 : forall w2, w_attrs w2 = w_attrs w ->
            exists w2', c w2 = (w2', r) /\ w_attrs w2' = w_attrs w2).
  { intros w2 H2. specialize (Hs w2 H2). pose proof (proj1 (Hc w2)) as Ha2.
    destruct (c w2) as [w2' r2]. simpl in *. try rewrite E in Hs. simpl in Hs. subst. eauto. }
  destruct r as [e|x]; [destruct e as [m|m|m|m|m|m]|].
  1: { simpl. split; [rewrite (proj1 (Hh w1)); exact Ha|].
       intros w2 H2. destruct (Hw2 w2 H2) as (w2' & E2 & Ha2). rewrite E2.
       apply (proj2 (Hh w1)). congruence. }
  all: simpl; split; [exact Ha|]; intros w2 H2;
       destruct (Hw2 w2 H2) as (w2' & E2 & Ha2); rewrite E2; reflexivity.
Qed.

#[export] Hint Resolve reads_only_ret reads_only_raise reads_only_lift reads_only_getattr
  reads_only_getitem reads_only_call_guard reads_only_mapM reads_only_try_TypeError
  reads_only_if : readsonly.

Ltac reads_only_step :=
  repeat first [ apply reads_only_bind; [eauto with readsonly | intros]
               | apply reads_only_if
               | apply reads_only_try_TypeError ];
  eauto with readsonly.

Lemma reads_only_current_state fields : reads_only (current_state fields).
Proof. unfold current_state. reads_only_step. Qed.

#[export] Hint Resolve reads_only_current_state : readsonly.

Lemma reads_only_conditions_met fields mt a : reads_only (conditions_met fields mt a).
Proof. unfold conditions_met. reads_only_step. Qed.

Lemma current_state_world fields w : fst (current_state fields w) = w.
Proof.
  unfold current_state, bind, lift, getattr.
  destruct (get_state_field fields); [reflexivity|].
  now destruct (w_attrs w !! _).
Qed.

Lemma filter_actions_spec fields cands a w w' res :
  filter_actions fields cands a w = (w', inr res) ->
  forall name t, In (name, t) res <->
    exists m, In (name, m, t) cands /\ snd (conditions_met fields (meta m) a w) = inr true.
Proof.
  revert w w' res. induction cands as [|[[n m] tg] cs IH]; intros w w' res H name t; simpl in H.
  - inversion H; subst. simpl. split; [tauto|]. intros (m & [] & _).
  - unfold bind in H at 1.
    destruct (conditions_met fields (meta m) a w) as [w1 [e|ok]] eqn:Ec; [discriminate|].
    unfold bind in H. destruct (filter_actions fields cs a w1) as [w2 [e|rest]] eqn:Er;
      [discriminate|].
    inversion H; subst res w'.
    pose proof (reads_only_conditions_met fields (meta m) a w) as [Ha _].
    rewrite Ec in Ha. simpl in Ha.
    assert (Hsame : forall m', snd (conditions_met fields (meta m') a w1) =
                               snd (conditions_met fields (meta m') a w))
      by (intros m'; apply (reads_only_conditions_met fields (meta m') a w); exact Ha).
    specialize (IH w1 w2 rest Er name t).
    split.
    + intros Hin. destruct ok.
      * destruct Hin as [Heq|Hin].
        -- inversion Heq; subst. exists m. split; [now left|]. now rewrite Ec.
        -- apply IH in Hin as (m' & Hm' & Hok). exists m'. split; [now right|].
           now rewrite <- Hsame.
      * apply IH in Hin as (m' & Hm' & Hok). exists m'. split; [now right|].
        now rewrite <- Hsame.
    + intros (m' & [Heq|Hm'] & Hok).
      * inversion Heq; subst. rewrite Ec in Hok. simpl in Hok. inversion Hok. now left.
      * assert (In (name, t) rest) by (apply IH; exists m'; split; [exact Hm'|]; now rewrite Hsame).
        destruct ok; [now right|assumption].
Qed.

Lemma append_action_lookup src y (idx : state_actions) k :
  default [] (append_action src y idx !! k) =
    if decide (src = k) then (default [] (idx !! k) ++ [y])%list else default [] (idx !! k).
Proof.
  unfold append_action. rewrite lookup_insert.
  case_decide; subst; reflexivity.
Qed.

Lemma index_pairs_spec n m (ps : list (string * string)) (idx : state_actions) k x :
  In x (default [] (foldl (fun idx st => append_action st.1 (n, m, st.2) idx) idx ps !! k)) <->
  In x (default [] (idx !! k)) \/ exists t, x = (n, m, t) /\ In (k, t) ps.
Proof.
  revert idx. induction ps as [|[s t] ps IH]; intros idx; simpl.
  - split; [tauto|]. intros [H|(t & _ & [])]. exact H.
  - rewrite IH, append_action_lookup. case_decide as Hsk.
    + subst s. rewrite in_app_iff. simpl. split.
      * intros [[H|[H|[]]]|(t' & -> & H)];
          [tauto | subst x; right; exists t; split; [reflexivity | now left]
          | right; exists t'; split; [reflexivity | now right]].
      * intros [H|(t' & -> & [Heq|H])]; [tauto| |eauto].
        inversion Heq; subst. left. right. now left.
    + split.
      * intros [H|(t' & -> & H)]; [tauto | right; exists t'; split; [reflexivity | now right]].
      * intros [H|(t' & -> & [Heq|H])]; [tauto| |right; eauto].
        inversion Heq; subst. now destruct Hsk.
Qed.

Lemma index_members_spec (cls : list (string * member)) (idx : state_actions) k x :
  In x (default [] (foldl index_member idx cls !! k)) <->
  In x (default [] (idx !! k)) \/
  exists name m t, x = (name, m, t) /\ In (name, MTransition m) cls /\
                   transitions (meta m) !! k = Some t.
Proof.
  revert idx. induction cls as [|[name mb] cls IH]; intros idx; simpl.
  - split; [tauto|]. intros [H|(? & ? & ? & _ & [] & _)]. exact H.
  - rewrite IH. unfold index_member. simpl. destruct mb as [| |m].
    1,2: split; [intros [H|(n' & m' & t & -> & Hin & Ht)]; [tauto|]; right;
                 exists n', m', t; split; [reflexivity|]; split; [now right|exact Ht]
               | intros [H|(n' & m' & t & -> & [Heq|Hin] & Ht)];
                 [tauto|discriminate|right; eauto 7]].
    rewrite index_pairs_spec. split.
    + intros [[H|(t & -> & Ht)]|(n' & m' & t & -> & Hin & Ht)].
      * now left.
      * right. exists name, m, t. split; [reflexivity|]. split; [now left|].
        apply elem_of_map_to_list. now apply list_elem_of_In.
      * right. exists n', m', t. split; [reflexivity|]. split; [now right|exact Ht].
    + intros [H|(n' & m' & t & -> & [Heq|Hin] & Ht)].
      * now left; left.
      * inversion Heq; subst. left. right. exists t. split; [reflexivity|].
        apply list_elem_of_In. now apply elem_of_map_to_list.
      * right. eauto 7.
Qed.

Lemma build_state_actions_spec cls k name m t :
  In (name, m, t) (default [] (build_state_actions cls !! k)) <->
  In (name, MTransition m) cls /\ transitions (meta m) !! k = Some t.
Proof.
  unfold build_state_actions. rewrite index_members_spec. rewrite lookup_empty. simpl.
  split.
  - intros [[]|(n' & m' & t' & Heq & Hin & Ht)]. inversion Heq; subst. auto.
  - intros [Hin Ht]. right. eauto 7.
Qed.

Lemma guard_ok_passes attrs a g :
  guard_ok attrs a g = true <-> guard_passes attrs a g.
Proof.
  unfold guard_ok, guard_passes. destruct (g_fun g attrs a) as [e|v].
  - split; [discriminate|]. intros (v & H & _). discriminate.
  - split; [eauto|]. intros (v' & H & Ht). inversion H; now subst.
Qed.

Lemma check_conditions_true gs a w :
  snd (check_conditions gs a w) = inr true <-> Forall (guard_passes (w_attrs w) a) gs.
Proof.
  revert w. induction gs as [|g gs IH]; intros w; simpl.
  - split; auto.
  - unfold bind. rewrite call_guard_eq. destruct (g_fun g (w_attrs w) a) as [e|v] eqn:Hg.
    + simpl. split; [discriminate|].
      intros Hf. inversion Hf as [|? ? (v & Hv & _) _]. congruence.
    + destruct (truthy v) eqn:Ht.
      * rewrite IH, log_guards_attrs. split.
        -- intros H. constructor; [exists v; auto | exact H].
        -- intros H. now inversion H.
      * simpl. split; [discriminate|].
        intros Hf. inversion Hf as [|? ? (v' & Hv & Ht') _]. congruence.
Qed.

Lemma mapM_call_guards_inv gs a w w' vs :
  mapM (fun g => call_guard g a) gs w = (w', inr vs) ->
  Forall2 (fun g v => g_fun g (w_attrs w) a = inr v) gs vs.
Proof.
  revert w w' vs. induction gs as [|g gs IH]; intros w w' vs H; simpl in H.
  - inversion H. constructor.
  - unfold bind in H. rewrite call_guard_eq in H.
    destruct (g_fun g (w_attrs w) a) as [e|v] eqn:Hg; [discriminate|].
    destruct (mapM (fun g => call_guard g a) gs (log_guards [g] w)) as [w1 [e|ys]] eqn:Em;
      [discriminate|].
    inversion H; subst. constructor; [exact Hg|].
    apply IH in Em. exact Em.
Qed.

Lemma guards_all_true gs a w :
  snd (try_TypeError
         (let* vs := mapM (fun g => call_guard g a) gs in ret (forallb truthy vs))
         (ret false) w) = inr true
  <-> Forall (guard_passes (w_attrs w) a) gs.
Proof.
  split.
  - unfold try_TypeError, bind.
    destruct (mapM (fun g => call_guard g a) gs w) as [w1 [e|vs]] eqn:Em.
    + destruct e; simpl; discriminate.
    + simpl. intros H. inversion H as [Hb]. clear H.
      apply mapM_call_guards_inv in Em.
      induction Em as [|g v gs vs Hv Hrest IHrest]; [constructor|].
      simpl in Hb. apply andb_true_iff in Hb as [Ht Hb].
      constructor; [exists v; auto | exact (IHrest Hb)].
  - intros Hp.
    assert (Hr : Forall (fun g => exists v, g_fun g (w_attrs w) a = inr v) gs)
      by (eapply Forall_impl; [exact Hp | intros g (v & Hv & _); eauto]).
    destruct (mapM_call_guards gs a w Hr) as (vs & Hm & Hb).
    assert (Hall : forallb (guard_ok (w_attrs w) a) gs = true).
    { apply forallb_forall. intros g Hin. apply guard_ok_passes.
      rewrite Forall_forall in Hp. apply Hp. now apply list_elem_of_In. }
    unfold try_TypeError. rewrite (bind_inr _ _ _ _ _ Hm). simpl. now rewrite Hb, Hall.
Qed.

Lemma decorated_inner src target save conds name body :
  str_truthy target = true ->
  decorated (inner_transition src target save conds name body).
Proof.
  intros Ht. exists target. split; [exact Ht|]. split; [reflexivity|].
  intros s t. destruct src as [s0|l]; simpl.
  - rewrite lookup_insert. case_decide.
    + congruence.
    + now rewrite lookup_empty.
  - intros H. pose proof (register_sources_lookup l target ∅ s) as E. simpl in E.
    rewrite H in E. rewrite lookup_empty in E. case_bool_decide; congruence.
Qed.

Lemma conditions_met_iff_dispatch fields m a w cur t :
  current_state fields w = (w, inr cur) ->
  decorated m ->
  transitions (meta m) !! cur = Some t ->
  snd (conditions_met fields (meta m) a w) = inr true <->
  snd (dispatch_check fields m a w) = inr true.
Proof.
  intros Hc (T & HT & Hcond & Hall) Ht.
  assert (HtT : t = T) by (eapply Hall; exact Ht). subst t.
  rewrite (conditions_met_exact fields (meta m) a w cur T (closure_conditions m) Hc Ht HT)
    by (rewrite Hcond; apply lookup_singleton_eq).
  rewrite guards_all_true.
  unfold dispatch_check.
  rewrite (bind_inr _ _ _ _ _ (has_transition_eq fields (meta m) w cur Hc)).
  unfold has_key at 1. rewrite Ht. simpl.
  now rewrite check_conditions_true.
Qed.

(** C3 (as amended): whenever [accessible_states] returns (from an empty
    class cache or one it filled earlier, on a class whose transition
    methods come from the decorator), a pair (method, target) is in the
    result exactly when the method has an exact entry for the current state
    with that target and the dispatch of the method with the same arguments
    would pass its legality check and all its guards. Methods reached only
    through the wildcard entry are not listed. The cache stays valid. *)
Theorem accessible_states_exact_sources fields cls cache a w cache' w' res :
  Forall (fun nm => forall m, nm.2 = MTransition m -> decorated m) cls ->
  cache_ok cls cache ->
  accessible_states fields cls cache a w = (cache', (w', inr res)) ->
  cache_ok cls cache' /\
  exists cur, current_state fields w = (w, inr cur) /\
    forall name t, In (name, t) res <->
      exists m, In (name, MTransition m) cls /\
                transitions (meta m) !! cur = Some t /\
                snd (dispatch_check fields m a w) = inr true.
Proof.
  intros Hdec Hcache H. unfold accessible_states in H.
  pose proof (current_state_world fields w) as Hw.
  destruct (current_state fields w) as [w1 [e|cur]] eqn:Ec; [inversion H|].
  simpl in Hw. subst w1.
  set (idx := match cache with Some idx => idx | None => build_state_actions cls end) in H.
  assert (Hidx : forall k, default [] (idx !! k) = default [] (build_state_actions cls !! k)).
  { intros k. subst idx. destruct cache as [idx0|]; [now apply Hcache | reflexivity]. }
  inversion H as [[Hc' Hf]]. clear H.
  split.
  - intros idx' Heq k. inversion Heq; subst idx'. rewrite lookup_insert.
    case_decide; subst; simpl; apply Hidx.
  - exists cur. split; [reflexivity|]. intros name t.
    rewrite (filter_actions_spec fields _ a w w' res Hf name t). rewrite Hidx.
    rewrite Forall_forall in Hdec.
    split.
    + intros (m & Hin & Hok). apply build_state_actions_spec in Hin as [Hcls Ht].
      exists m. split; [exact Hcls|]. split; [exact Ht|].
      apply (conditions_met_iff_dispatch fields m a w cur t Ec); [|exact Ht|exact Hok].
      apply (Hdec (name, MTransition m)); [now apply list_elem_of_In | reflexivity].
    + intros (m & Hcls & Ht & Hok). exists m. split.
      * now apply build_state_actions_spec.
      * apply (conditions_met_iff_dispatch fields m a w cur t Ec); [|exact Ht|exact Hok].
        apply (Hdec (name, MTransition m)); [now apply list_elem_of_In | reflexivity].
Qed.

(** ** Witnesses on the test suite's models *)

Lemma triple_eta {A B C} (x : A * (B * C)) (c : C) :
  x.2.2 = c -> x = (x.1, (x.2.1, c)).
Proof. destruct x as [? [? ?]]. simpl. now intros ->. Qed.

Lemma illegal_transition_rejected_witness :
  change_state BlogPost.fields BlogPost.no_save BlogPost.hide no_args (BlogPost.in_state "new") =
    (BlogPost.in_state "new", inl (NotImplementedError (illegal_message "new" "hide"))) /\
  forall n, Nat.iter n (fun w0 => fst (change_state BlogPost.fields BlogPost.no_save
                                         BlogPost.hide no_args w0)) (BlogPost.in_state "new")
            = BlogPost.in_state "new".
Proof.
  apply (illegal_transition_rejected BlogPost.fields BlogPost.no_save BlogPost.hide no_args
           (BlogPost.in_state "new") "new"); reflexivity.
Defined.

Lemma first_falsy_guard_aborts_witness :
  change_state Conditional.fields BlogPost.no_save Conditional.destroy no_args
    (Conditional.in_state "published") =
  (log_guards [Conditional.condition_func; Conditional.unmet_condition]
     (Conditional.in_state "published"), inr (PBool false)).
Proof.
  apply (first_falsy_guard_aborts Conditional.fields BlogPost.no_save Conditional.destroy no_args
           (Conditional.in_state "published") "published" [Conditional.condition_func]
           Conditional.unmet_condition [] (PBool false)); try reflexivity.
  constructor; [|constructor]. exists (PBool true). split; reflexivity.
Defined.

Lemma raising_guard_propagates_witness :
  change_state BlogPost.fields BlogPost.no_save BlogPost.guarded_publish no_args
    (BlogPost.in_state "new") =
  (log_guards [BlogPost.failing_guard] (BlogPost.in_state "new"), inl (ValueError "no owner")).
Proof.
  apply (raising_guard_propagates BlogPost.fields BlogPost.no_save BlogPost.guarded_publish
           no_args (BlogPost.in_state "new") "new" [] BlogPost.failing_guard []
           (ValueError "no owner")); try reflexivity.
  constructor.
Defined.

Lemma body_exception_propagates_witness :
  change_state BlogPost.fields BlogPost.no_save BlogPost.remove no_args (BlogPost.in_state "new") =
    (fst (call_func BlogPost.remove no_args (BlogPost.in_state "new")),
     inl (UserException "No rights to delete")) /\
  ((forall f, get_state_field BlogPost.fields = inr f ->
      w_attrs (fst (call_func BlogPost.remove no_args (BlogPost.in_state "new"))) !! f_name f
      = w_attrs (BlogPost.in_state "new") !! f_name f) ->
   current_state BlogPost.fields (fst (call_func BlogPost.remove no_args (BlogPost.in_state "new")))
   = (fst (call_func BlogPost.remove no_args (BlogPost.in_state "new")), inr "new")).
Proof.
  apply (body_exception_propagates BlogPost.fields BlogPost.no_save BlogPost.remove no_args
           (BlogPost.in_state "new") "new"); try reflexivity.
  constructor.
Defined.

Lemma accepted_call_returns_none_witness :
  change_state BlogPost.fields BlogPost.no_save BlogPost.publish_returning no_args
    (BlogPost.in_state "new") =
  ret PNone
    {| w_attrs := <["state" := "published"]>
                    (w_attrs (fst (call_func BlogPost.publish_returning no_args
                                     (BlogPost.in_state "new"))));
       w_log := w_log (fst (call_func BlogPost.publish_returning no_args
                              (BlogPost.in_state "new"))) |}.
Proof.
  apply (accepted_call_returns_none BlogPost.fields BlogPost.no_save BlogPost.publish_returning
           no_args (BlogPost.in_state "new") "new" {| f_name := "state"; f_kind := FSMField |}
           (fst (call_func BlogPost.publish_returning no_args (BlogPost.in_state "new")))
           (PStr "done") "published"); try reflexivity.
  constructor.
Defined.

Lemma wildcard_and_exact_precedence_witness :
  change_state BlogPost.fields BlogPost.no_save BlogPost.moderate no_args
    (BlogPost.in_state "hidden") =
  ret PNone
    {| w_attrs := <["state" := "moderated"]>
                    (w_attrs (fst (call_func BlogPost.moderate no_args
                                     (BlogPost.in_state "hidden"))));
       w_log := w_log (fst (call_func BlogPost.moderate no_args (BlogPost.in_state "hidden"))) |} /\
  to_next_state BlogPost.fields exact_and_wildcard (BlogPost.in_state "hidden") =
    ({| w_attrs := <["state" := "archived"]> (w_attrs (BlogPost.in_state "hidden"));
        w_log := [] |}, inr tt) /\
  conditions_met BlogPost.fields exact_and_wildcard no_args (BlogPost.in_state "hidden") =
    (log_guards [Conditional.condition_func] (BlogPost.in_state "hidden"), inr true).
Proof.
  split.
  - apply ((proj1 wildcard_and_exact_precedence) BlogPost.fields BlogPost.no_save "moderated"
             false [] (inner_transition (Source "*") "moderated" false []) "moderate"
             BlogPost.pass no_args (BlogPost.in_state "hidden") "hidden"
             {| f_name := "state"; f_kind := FSMField |}
             (fst (call_func BlogPost.moderate no_args (BlogPost.in_state "hidden")))
             PNone "hidden"); try reflexivity.
    constructor.
  - split.
    + refine (proj1 ((proj2 wildcard_and_exact_precedence) BlogPost.fields exact_and_wildcard
                no_args (BlogPost.in_state "hidden") "hidden"
                {| f_name := "state"; f_kind := FSMField |} "archived" _ _ _));
        reflexivity.
    + refine (proj2 ((proj2 wildcard_and_exact_precedence) BlogPost.fields exact_and_wildcard
                no_args (BlogPost.in_state "hidden") "hidden"
                {| f_name := "state"; f_kind := FSMField |} "archived" _ _ _)
                _ [Conditional.condition_func] _ _); try reflexivity.
      constructor; [exists (PBool true); reflexivity | constructor].
Defined.

Lemma multi_source_registration_witness :
  change_state BlogPost.fields BlogPost.no_save BlogPost.steal no_args
    (BlogPost.in_state "hidden") =
  ret PNone
    {| w_attrs := <["state" := "stolen"]>
                    (w_attrs (fst (call_func BlogPost.steal no_args (BlogPost.in_state "hidden"))));
       w_log := w_log (fst (call_func BlogPost.steal no_args (BlogPost.in_state "hidden"))) |} /\
  change_state BlogPost.fields BlogPost.no_save BlogPost.steal_resetting no_args
    (BlogPost.in_state "hidden") =
  (fst (call_func BlogPost.steal_resetting no_args (BlogPost.in_state "hidden")),
   inl (KeyError "*")).
Proof.
  split.
  - refine (eq_trans (proj2 (multi_source_registration BlogPost.fields BlogPost.no_save
               ["published"; "hidden"] "stolen" false []
               (inner_transition (Sources ["published"; "hidden"]) "stolen" false [])
               "steal" BlogPost.pass eq_refl)
             "hidden" no_args (BlogPost.in_state "hidden") {| f_name := "state"; f_kind := FSMField |}
             (fst (call_func BlogPost.steal no_args (BlogPost.in_state "hidden"))) PNone "hidden" _ _ _ _ _ _) _);
      try reflexivity.
    + apply list_elem_of_In. right. now left.
    + constructor.
  - refine (eq_trans (proj2 (multi_source_registration BlogPost.fields BlogPost.no_save
               ["published"; "hidden"] "stolen" false []
               (inner_transition (Sources ["published"; "hidden"]) "stolen" false [])
               "steal" (func BlogPost.steal_resetting) eq_refl)
             "hidden" no_args (BlogPost.in_state "hidden") {| f_name := "state"; f_kind := FSMField |}
             (fst (call_func BlogPost.steal_resetting no_args (BlogPost.in_state "hidden")))
             PNone "new" _ _ _ _ _ _) _);
      try reflexivity.
    + apply list_elem_of_In. right. now left.
    + constructor.
Defined.


Lemma accessible_states_exact_sources_witness :
  cache_ok Conditional.cls Conditional.accessible_with_bar.1 /\
  exists cur, current_state Conditional.fields (Conditional.in_state "published") =
                (Conditional.in_state "published", inr cur) /\
    forall name t, In (name, t) [("approve", "approved"); ("bless", "holy")] <->
      exists m, In (name, MTransition m) Conditional.cls /\
                transitions (meta m) !! cur = Some t /\
                snd (dispatch_check Conditional.fields m Conditional.bar_args
                       (Conditional.in_state "published")) = inr true.
Proof.
  apply (accessible_states_exact_sources Conditional.fields Conditional.cls None
           Conditional.bar_args (Conditional.in_state "published")
           Conditional.accessible_with_bar.1 Conditional.accessible_with_bar.2.1).
  - repeat constructor; intros m Hm; simpl in Hm; try discriminate;
      inversion Hm; apply decorated_inner; reflexivity.
  - intros idx H. discriminate.
  - apply triple_eta. vm_compute. reflexivity.
Defined.

(** ** Counterexamples *)

(** C1: a body that assigns the state attribute and then raises leaves the
    assigned value: the call raises, and the state is no longer ["new"]. *)
Lemma body_exception_state_counterexample :
  snd (BlogPost.run BlogPost.remove_midway (BlogPost.in_state "new")) =
    inl (UserException "No rights to delete") /\
  BlogPost.state_of (fst (BlogPost.run BlogPost.remove_midway (BlogPost.in_state "new"))) =
    Some "removing".
Proof. split; reflexivity. Qed.

(** C8: [steal] is registered from ["published"] and ["hidden"] to
    ["stolen"]; called from ["hidden"] with a body that puts the post back
    to ["new"], the call passes its checks, runs the body and then raises
    [KeyError '*'] instead of reaching ["stolen"]. *)
Lemma multi_source_body_counterexample :
  snd (dispatch_check BlogPost.fields BlogPost.steal_resetting no_args (BlogPost.in_state "hidden"))
    = inr true /\
  snd (BlogPost.run BlogPost.steal_resetting (BlogPost.in_state "hidden")) = inl (KeyError "*") /\
  BlogPost.state_of (fst (BlogPost.run BlogPost.steal_resetting (BlogPost.in_state "hidden"))) =
    Some "new".
Proof. split; [|split]; reflexivity. Qed.

(** C3: from ["new"] the dispatch of the wildcard method [moderate] passes
    its legality check and guards, but [accessible_states] does not list it. *)
Lemma accessible_states_wildcard_counterexample :
  snd (dispatch_check BlogPost.fields BlogPost.moderate no_args (BlogPost.in_state "new")) =
    inr true /\
  (accessible_states BlogPost.fields BlogPost.cls None no_args (BlogPost.in_state "new")).2.2 =
    inr [("publish", "published"); ("remove", "removed")].
Proof. split; vm_compute; reflexivity. Qed.

(** C4: a guard raising [ValueError] makes the call raise, not return a
    falsy value. *)
Lemma raising_guard_counterexample :
  snd (BlogPost.run BlogPost.guarded_publish (BlogPost.in_state "new")) =
    inl (ValueError "no owner").
Proof. reflexivity. Qed.

(** C5: the body returns ["done"], the decorated call returns [None]. *)
Lemma return_value_counterexample :
  snd (call_func BlogPost.publish_returning no_args (BlogPost.in_state "new")) =
    inr (PStr "done") /\
  snd (BlogPost.run BlogPost.publish_returning (BlogPost.in_state "new")) = inr PNone.
Proof. split; reflexivity. Qed.

(** ** Further properties of [fsmfield.py] *)

Lemma can_proceed_transition_eq fields m a :
  can_proceed fields (MTransition m) a =
    (let* h := has_transition fields (meta m) in
     if h then conditions_met fields (meta m) a else ret false).
Proof. reflexivity. Qed.

Lemma conditions_met_decorated fields m a w cur :
  current_state fields w = (w, inr cur) ->
  decorated m ->
  (has_key (transitions (meta m)) cur || has_key (transitions (meta m)) "*") = true ->
  conditions_met fields (meta m) a w =
    try_TypeError
      (let* vs := mapM (fun g => call_guard g a) (closure_conditions m) in
       ret (forallb truthy vs))
      (ret false) w.
Proof.
  intros Hc (T & HT & Hcond & Hall) Hl.
  destruct (transitions (meta m) !! cur) as [t|] eqn:Ht.
  - assert (t = T) by (eapply Hall; exact Ht). subst t.
    apply (conditions_met_exact fields (meta m) a w cur T); auto.
    rewrite Hcond. apply lookup_singleton_eq.
  - unfold has_key in Hl. rewrite Ht in Hl. simpl in Hl.
    apply bool_decide_eq_true in Hl. destruct Hl as [t Hs].
    assert (t = T) by (eapply Hall; exact Hs). subst t.
    unfold conditions_met. rewrite (bind_inr _ _ _ _ _ Hc).
    unfold has_key at 1. rewrite Ht. simpl.
    assert (Gs : getitem (transitions (meta m)) "*" w = (w, inr T))
      by (unfold getitem; now rewrite Hs).
    rewrite (bind_inr _ _ _ _ _ Gs).
    assert (Gc : getitem (conditions (meta m)) T w = (w, inr (closure_conditions m)))
      by (unfold getitem; rewrite Hcond; now rewrite lookup_singleton_eq).
    unfold try_TypeError. now rewrite (bind_inr _ _ _ _ _ Gc).
Qed.

Lemma mapM_call_guards_raise (pre : list guard) g post a w e :
  Forall (fun h => exists v, g_fun h (w_attrs w) a = inr v) pre ->
  g_fun g (w_attrs w) a = inl e ->
  mapM (fun h => call_guard h a) (pre ++ g :: post)%list w =
    (log_guards (pre ++ [g])%list w, inl e).
Proof.
  revert w. induction pre as [|h pre IH]; intros w Hpre Hg; simpl.
  - apply bind_inl. rewrite call_guard_eq. now rewrite Hg.
  - inversion Hpre as [|? ? (v & Hv) Hrest]; subst.
    rewrite (bind_inr _ _ w (log_guards [h] w) v) by (rewrite call_guard_eq; now rewrite Hv).
    rewrite (bind_inl _ _ _ _ _ (IH (log_guards [h] w) Hrest Hg)).
    now rewrite log_guards_app.
Qed.

Lemma register_sources_lookup_any src T (t : gmap string string) s :
  register_sources src T t !! s =
    if bool_decide (s ∈ source_list src) then Some T else t !! s.
Proof.
  destruct src as [s0|l]; [|apply register_sources_lookup].
  simpl. rewrite lookup_insert.
  case_decide; case_bool_decide; subst; try reflexivity; set_solver.
Qed.

(** The [transition] decorator refuses a missing or empty target with
    [ValueError] before any function is decorated; with a target [T] it
    returns [inner_transition], which registers on a fresh [FSMMeta] for a
    function without metadata. On a function that already has
    [_django_fsm], the registration updates that object: each state named
    by [source] now maps to [T], replacing an earlier target (last
    registration wins), every other source keeps its earlier target, and
    the guards stored under [T] are replaced while those of other targets
    are kept. On a fresh function exactly the states named by [source]
    are registered. *)
Theorem transition_registration src T save conds existing :
  (str_truthy T = false ->
     transition src T save conds = inl (ValueError "Result state not specified")) /\
  (str_truthy T = true ->
     exists dec, transition src T save conds = inr dec /\
       forall name body, meta (dec name body) = register_transition src T conds None) /\
  (forall s, transitions (register_transition src T conds existing) !! s =
     if bool_decide (s ∈ source_list src) then Some T
     else transitions (fsm_of existing) !! s) /\
  (forall t, conditions (register_transition src T conds existing) !! t =
     if decide (T = t) then Some conds else conditions (fsm_of existing) !! t) /\
  (forall s, transitions (register_transition src T conds None) !! s =
     if bool_decide (s ∈ source_list src) then Some T else None).
Proof.
  split; [intros H; unfold transition; now rewrite H|].
  split.
  { intros H. unfold transition. rewrite H. eexists. split; [reflexivity|].
    intros name body. reflexivity. }
  split; [intros s; apply register_sources_lookup_any|].
  split; [intros t; apply lookup_insert|].
  intros s. unfold register_transition. simpl.
  rewrite register_sources_lookup_any. now rewrite lookup_empty.
Qed.

(** [can_proceed] on a decorated method answers [True] exactly when the
    call would pass its legality check and all its guards, also when the
    method is reached through the wildcard source. *)
Theorem can_proceed_agrees_with_dispatch fields m a w cur :
  current_state fields w = (w, inr cur) ->
  decorated m ->
  snd (can_proceed fields (MTransition m) a w) = inr true <->
  snd (dispatch_check fields m a w) = inr true.
Proof.
  intros Hc Hd. rewrite can_proceed_transition_eq. unfold dispatch_check.
  rewrite !(bind_inr _ _ _ _ _ (has_transition_eq fields (meta m) w cur Hc)).
  destruct (has_key (transitions (meta m)) cur || has_key (transitions (meta m)) "*") eqn:Hl.
  - rewrite (conditions_met_decorated fields m a w cur Hc Hd Hl).
    rewrite guards_all_true. now rewrite check_conditions_true.
  - rewrite (bind_inr _ _ _ _ _ Hc). simpl. split; discriminate.
Qed.

(** Where the call would raise [NotImplementedError], [can_proceed]
    returns [False] instead, without calling any guard. *)
Theorem can_proceed_illegal_state fields m a w cur :
  current_state fields w = (w, inr cur) ->
  transitions (meta m) !! cur = None ->
  transitions (meta m) !! "*" = None ->
  can_proceed fields (MTransition m) a w = (w, inr false).
Proof.
  intros Hc Hcur Hstar. rewrite can_proceed_transition_eq.
  rewrite (bind_inr _ _ _ _ _ (has_transition_eq fields (meta m) w cur Hc)).
  unfold has_key. rewrite Hcur, Hstar. reflexivity.
Qed.

(** [conditions_met] maps every guard before [all] looks at the results:
    [can_proceed] calls all the guards, in order, even after a falsy one,
    and answers whether all of them were truthy. *)
Theorem can_proceed_calls_every_guard fields m a w cur :
  current_state fields w = (w, inr cur) ->
  decorated m ->
  (has_key (transitions (meta m)) cur || has_key (transitions (meta m)) "*") = true ->
  Forall (fun g => exists v, g_fun g (w_attrs w) a = inr v) (closure_conditions m) ->
  can_proceed fields (MTransition m) a w =
    (log_guards (closure_conditions m) w,
     inr (forallb (guard_ok (w_attrs w) a) (closure_conditions m))).
Proof.
  intros Hc Hd Hl Hret. rewrite can_proceed_transition_eq.
  rewrite (bind_inr _ _ _ _ _ (has_transition_eq fields (meta m) w cur Hc)), Hl.
  rewrite (conditions_met_decorated fields m a w cur Hc Hd Hl).
  destruct (mapM_call_guards _ a w Hret) as (vs & Hm & Hb).
  unfold try_TypeError. rewrite (bind_inr _ _ _ _ _ Hm). simpl. now rewrite Hb.
Qed.

(** When a guard raises during [can_proceed], the guards after it are not
    called; a [TypeError] is turned into the answer [False], any other
    exception propagates. *)
Theorem can_proceed_guard_raises fields m a w cur (pre : list guard) g post e :
  current_state fields w = (w, inr cur) ->
  decorated m ->
  (has_key (transitions (meta m)) cur || has_key (transitions (meta m)) "*") = true ->
  closure_conditions m = (pre ++ g :: post)%list ->
  Forall (fun h => exists v, g_fun h (w_attrs w) a = inr v) pre ->
  g_fun g (w_attrs w) a = inl e ->
  can_proceed fields (MTransition m) a w =
    (log_guards (pre ++ [g])%list w, if is_TypeError e then inr false else inl e).
Proof.
  intros Hc Hd Hl Hconds Hpre Hg. rewrite can_proceed_transition_eq.
  rewrite (bind_inr _ _ _ _ _ (has_transition_eq fields (meta m) w cur Hc)), Hl.
  rewrite (conditions_met_decorated fields m a w cur Hc Hd Hl), Hconds.
  unfold try_TypeError.
  rewrite (bind_inl _ _ _ _ _ (mapM_call_guards_raise pre g post a w e Hpre Hg)).
  destruct e; reflexivity.
Qed.

(** [to_next_state] resolves the target from the state the body left:
    when the body moves the state attribute to a state with neither an
    exact nor a wildcard entry, the call raises [KeyError '*'] after the
    body has run, and the instance stays as the body left it. *)
Theorem body_moves_to_unregistered_state fields sv m a w cur w' v f s' :
  get_state_field fields = inr f ->
  w_attrs w !! f_name f = Some cur ->
  (has_key (transitions (meta m)) cur || has_key (transitions (meta m)) "*") = true ->
  Forall (guard_passes (w_attrs w) a) (closure_conditions m) ->
  call_func m a (log_guards (closure_conditions m) w) = (w', inr v) ->
  w_attrs w' !! f_name f = Some s' ->
  next_target (transitions (meta m)) s' = None ->
  change_state fields sv m a w = (w', inl (KeyError "*")).
Proof.
  intros Hf Hcur Hl Hg Hb Hs' Hx.
  assert (Hc : current_state fields w = (w, inr cur)) by (apply current_state_spec; eauto).
  rewrite (change_state_after_check fields sv m a w _
    (dispatch_check_accepts fields m a w cur Hc Hl Hg)).
  rewrite (bind_inr _ _ _ _ _ Hb).
  now rewrite (bind_inl _ _ _ _ _ (to_next_state_missing fields (meta m) w' f s' Hf Hs' Hx)).
Qed.

(** With [save=True], [instance.save()] runs on the instance whose state
    attribute was already advanced; when it raises, the call raises and
    the new state stays (nothing restores the old one). *)
Theorem save_failure_after_advance fields sv m a w cur f w' v s' t w'' e :
  get_state_field fields = inr f ->
  w_attrs w !! f_name f = Some cur ->
  (has_key (transitions (meta m)) cur || has_key (transitions (meta m)) "*") = true ->
  Forall (guard_passes (w_attrs w) a) (closure_conditions m) ->
  call_func m a (log_guards (closure_conditions m) w) = (w', inr v) ->
  w_attrs w' !! f_name f = Some s' ->
  next_target (transitions (meta m)) s' = Some t ->
  closure_save m = true ->
  sv {| w_attrs := <[f_name f := t]> (w_attrs w'); w_log := w_log w' |} = (w'', inl e) ->
  change_state fields sv m a w = (w'', inl e) /\
  (w_attrs w'' = <[f_name f := t]> (w_attrs w') -> current_state fields w'' = (w'', inr t)).
Proof.
  intros Hf Hcur Hl Hg Hb Hs Ht Hsave Hsv. split.
  - rewrite (accepted_call fields sv m a w cur f w' v s' t Hf Hcur Hl Hg Hb Hs Ht), Hsave.
    now apply bind_inl.
  - intros Ha. apply current_state_spec. exists f. split; [exact Hf|].
    rewrite Ha. apply lookup_insert_eq.
Qed.

(** ** Witnesses of the further properties *)

Lemma transition_registration_witness :
  transition (Source "new") "" false [] = inl (ValueError "Result state not specified") /\
  (exists dec, transition (Source "hidden") "archived" false [] = inr dec /\
     forall name body, meta (dec name body) = register_transition (Source "hidden") "archived" [] None) /\
  transitions (register_transition (Source "hidden") "archived" [] (Some (meta BlogPost.steal)))
    !! "hidden" = Some "archived" /\
  transitions (register_transition (Source "hidden") "archived" [] (Some (meta BlogPost.steal)))
    !! "published" = Some "stolen".
Proof.
  destruct (transition_registration (Source "new") "" false [] None) as [H1 _].
  destruct (transition_registration (Source "hidden") "archived" false []
              (Some (meta BlogPost.steal))) as (_ & H2 & H3 & _).
  split; [apply H1; reflexivity|].
  split; [apply H2; reflexivity|].
  split; rewrite H3; reflexivity.
Defined.

Lemma can_proceed_agrees_with_dispatch_witness :
  snd (can_proceed BlogPost.fields (MTransition BlogPost.moderate) no_args
         (BlogPost.in_state "new")) = inr true <->
  snd (dispatch_check BlogPost.fields BlogPost.moderate no_args (BlogPost.in_state "new")) = inr true.
Proof.
  apply (can_proceed_agrees_with_dispatch BlogPost.fields BlogPost.moderate no_args
           (BlogPost.in_state "new") "new").
  - reflexivity.
  - apply decorated_inner. reflexivity.
Defined.

Lemma can_proceed_illegal_state_witness :
  can_proceed BlogPost.fields (MTransition BlogPost.hide) no_args (BlogPost.in_state "new") =
    (BlogPost.in_state "new", inr false).
Proof.
  apply (can_proceed_illegal_state BlogPost.fields BlogPost.hide no_args
           (BlogPost.in_state "new") "new"); reflexivity.
Defined.

Lemma can_proceed_calls_every_guard_witness :
  can_proceed Conditional.fields (MTransition Conditional.destroy) no_args
    (Conditional.in_state "published") =
  (log_guards [Conditional.condition_func; Conditional.unmet_condition]
     (Conditional.in_state "published"), inr false).
Proof.
  apply (can_proceed_calls_every_guard Conditional.fields Conditional.destroy no_args
           (Conditional.in_state "published") "published").
  - reflexivity.
  - apply decorated_inner. reflexivity.
  - reflexivity.
  - constructor; [exists (PBool true); reflexivity|].
    constructor; [exists (PBool false); reflexivity | constructor].
Defined.

Lemma can_proceed_guard_raises_witness :
  can_proceed Conditional.fields (MTransition Conditional.mark_spam) Conditional.bar_args
    (Conditional.in_state "new") =
  (log_guards [Conditional.condition_func2] (Conditional.in_state "new"), inr false).
Proof.
  apply (can_proceed_guard_raises Conditional.fields Conditional.mark_spam Conditional.bar_args
           (Conditional.in_state "new") "new" [] Conditional.condition_func2 []
           (TypeError "condition_func2() takes exactly 1 argument")).
  - reflexivity.
  - apply decorated_inner. reflexivity.
  - reflexivity.
  - reflexivity.
  - constructor.
  - reflexivity.
Defined.

Lemma body_moves_to_unregistered_state_witness :
  change_state BlogPost.fields BlogPost.no_save BlogPost.steal_resetting no_args
    (BlogPost.in_state "hidden") =
  (fst (call_func BlogPost.steal_resetting no_args (BlogPost.in_state "hidden")),
   inl (KeyError "*")).
Proof.
  apply (body_moves_to_unregistered_state BlogPost.fields BlogPost.no_save
           BlogPost.steal_resetting no_args (BlogPost.in_state "hidden") "hidden"
           (fst (call_func BlogPost.steal_resetting no_args (BlogPost.in_state "hidden")))
           PNone {| f_name := "state"; f_kind := FSMField |} "new"); try reflexivity.
  constructor.
Defined.

Lemma save_failure_after_advance_witness :
  change_state BlogPost.fields BlogPost.failing_save BlogPost.hide_saving no_args
    (BlogPost.in_state "published") =
  ({| w_attrs := <["state" := "hidden"]>
                   (w_attrs (fst (call_func BlogPost.hide_saving no_args
                                    (BlogPost.in_state "published"))));
      w_log := w_log (fst (call_func BlogPost.hide_saving no_args
                             (BlogPost.in_state "published"))) |},
   inl (UserException "database is locked")) /\
  (<["state" := "hidden"]>
     (w_attrs (fst (call_func BlogPost.hide_saving no_args (BlogPost.in_state "published")))) =
   <["state" := "hidden"]>
     (w_attrs (fst (call_func BlogPost.hide_saving no_args (BlogPost.in_state "published")))) ->
   current_state BlogPost.fields
     {| w_attrs := <["state" := "hidden"]>
                     (w_attrs (fst (call_func BlogPost.hide_saving no_args
                                      (BlogPost.in_state "published"))));
        w_log := w_log (fst (call_func BlogPost.hide_saving no_args
                               (BlogPost.in_state "published"))) |} =
   ({| w_attrs := <["state" := "hidden"]>
                    (w_attrs (fst (call_func BlogPost.hide_saving no_args
                                     (BlogPost.in_state "published"))));
       w_log := w_log (fst (call_func BlogPost.hide_saving no_args
                              (BlogPost.in_state "published"))) |}, inr "hidden")).
Proof.
  apply (save_failure_after_advance BlogPost.fields BlogPost.failing_save BlogPost.hide_saving
           no_args (BlogPost.in_state "published") "published"
           {| f_name := "state"; f_kind := FSMField |}
           (fst (call_func BlogPost.hide_saving no_args (BlogPost.in_state "published")))
           PNone "published" "hidden"); try reflexivity.
  constructor.
Defined.
